(** * Verification of the Nimbella bridge of doctl ([commands/nimbella.go])

    The Go file turns the [serverless] components of an app spec into one
    call of the external [nim] tool and patches the static sites of the same
    app spec with the URL that [nim] reports.  The embedding below follows
    the Go code function by function:

    - Go strings are [string]s, [+] is [append], [s == ""] is [s =? ""];
    - a Go result [(string, error)] is a pair [string * option error]
      ([None] is [nil]); both components are kept because [runNim] returns
      the text of the tool together with its error;
    - a pointer to a struct that is only read is an [option] of the struct
      when the code tests it against [nil], and the struct itself otherwise
      (the code dereferences those pointers without a test, so [nil] is not
      an input it handles);
    - the static sites are reached through pointers and updated in place, so
      they live in a store indexed by locations, and a list of sites is a
      list of locations in which a location may occur more than once;
    - a slice is the list of its elements and [append] adds at the end.
      Go's [append] writes in place when the slice has spare capacity, so
      this reading is right when every site holds its own collection: the
      [Envs] slices of different sites do not share a backing array.  That
      is the data model of the design document (independently specified
      components), and every statement below about the variables of more
      than one site is made under it;
    - [os.UserHomeDir], [filepath.Join] and [exec.Command(..).CombinedOutput]
      belong to the Go library: they are parameters of the development. *)

From Stdlib Require Import String Ascii List Bool Arith.
From Stdlib Require Import ZArith.
Import ListNotations.
Open Scope list_scope.
Open Scope string_scope.

(** ** Errors *)

(** A Go [error] value.  [errors_New] is [errors.New]; [foreign] stands for
    the errors built by the [os] and [os/exec] packages. *)
Inductive error : Type :=
| errors_New (text : string)
| foreign (descr : string).

(** The error kinds of the design document (conceptual names). *)
Inductive ErrorKind : Type :=
| MissingSourceSpec
| ConflictingSourceSpec
| UnsupportedFeature
| MissingRequiredField
| ConflictingVariable
| ExternalFailure.

(** The six messages that [nimbella.go] passes to [errors.New]. *)
Definition msgMissingSource : string :=
  "one of `Local` or `GitHub` must appear in a `serverless` spec".
Definition msgConflictingSource : string :=
  "you cannot specify both `Local` and `GitHub` in a `serverless` spec".
Definition msgDeployOnPush : string :=
  "the `deploy on push` feature is not currently supported for serverless".
Definition msgRepoRequired : string :=
  "The `repo` field is required".
Definition msgLocalRequired : string :=
  "If `local` is used, either the path or the sourceDir or both must be specified".
Definition msgConflictingUse : string :=
  "Unable to add serverless URL to static site because the variable has a conflicting use".

(** Reading of an error value as one of the conceptual kinds. *)
Definition kindOf (e : error) : ErrorKind :=
  match e with
  | foreign _ => ExternalFailure
  | errors_New m =>
      if m =? msgMissingSource then MissingSourceSpec
      else if m =? msgConflictingSource then ConflictingSourceSpec
      else if m =? msgDeployOnPush then UnsupportedFeature
      else if m =? msgRepoRequired then MissingRequiredField
      else if m =? msgLocalRequired then MissingRequiredField
      else if m =? msgConflictingUse then ConflictingVariable
      else ExternalFailure
  end.

(** ** The godo structures that the code reads *)

Record GitHubSourceSpec : Type := {
  Repo : string;
  Branch : string;
  DeployOnPush : bool
}.

Record LocalSourceSpec : Type := {
  Path : string
}.

Record AppServerlessSpec : Type := {
  Local : option LocalSourceSpec;
  GitHub : option GitHubSourceSpec;
  SourceDir : string
}.

Inductive AppVariableScope : Type :=
| AppVariableScope_Unset
| AppVariableScope_RunTime
| AppVariableScope_BuildTime
| AppVariableScope_RunAndBuildTime.

Inductive AppVariableType : Type :=
| AppVariableType_General
| AppVariableType_Secret.

Record AppVariableDefinition : Type := {
  Key : string;
  Value : string;
  Scope : AppVariableScope;
  Type_ : AppVariableType
}.

(** Of a static site only [Envs] is touched; [Name] stands for the fields
    that the code never reads or writes. *)
Record AppStaticSiteSpec : Type := {
  Name : string;
  Envs : list AppVariableDefinition
}.

(** ** Project Reference Builder *)

Module Builder.

(** [githubProject]: lines 60-75. *)
Definition githubProject (spec : GitHubSourceSpec) (sourceDir : string)
  : string * option error :=
  if DeployOnPush spec then
    ("", Some (errors_New msgDeployOnPush))
  else if Repo spec =? "" then
    ("", Some (errors_New msgRepoRequired))
  else
    let project := "github:" ++ Repo spec in
    let project :=
      if negb (sourceDir =? "") then (project ++ "/") ++ sourceDir else project in
    let project :=
      if negb (Branch spec =? "") then (project ++ "#") ++ Branch spec else project in
    (project, None).

(** [localProject]: lines 79-91. *)
Definition localProject (spec : LocalSourceSpec) (sourceDir : string)
  : string * option error :=
  if negb (Path spec =? "") then
    if negb (sourceDir =? "") then
      ((Path spec ++ "/") ++ sourceDir, None)
    else
      (Path spec, None)
  else if negb (sourceDir =? "") then
    (sourceDir, None)
  else
    ("", Some (errors_New msgLocalRequired)).

(** [convertToNimProject]: lines 44-56. *)
Definition convertToNimProject (spec : AppServerlessSpec)
  : string * option error :=
  match Local spec with
  | None =>
      match GitHub spec with
      | None => ("", Some (errors_New msgMissingSource))
      | Some gh => githubProject gh (SourceDir spec)
      end
  | Some loc =>
      match GitHub spec with
      | Some _ => ("", Some (errors_New msgConflictingSource))
      | None => localProject loc (SourceDir spec)
      end
  end.

End Builder.

(** ** The operating system and the state of a call *)

(** One launch of an external program: [exec.Command(path, args...)]. *)
Record Invocation : Type := {
  cmd_path : string;
  cmd_args : list string
}.

(** The Go library functions that [nimbella.go] calls.  The answer of the
    external program may depend on the programs launched before it. *)
Record OS : Type := {
  os_UserHomeDir : string * option error;
  filepath_Join : list string -> string;
  exec_CombinedOutput : list Invocation -> string -> list string -> string * option error
}.

(** A pointer to a static site. *)
Definition loc : Type := nat.

(** What a call can change: the programs launched so far, in order, and the
    static sites behind the pointers (Go pointers never dangle, so the store
    is total). *)
Record State : Type := {
  launched : list Invocation;
  sites_at : loc -> AppStaticSiteSpec
}.

(** A computation that reads and updates the state. *)
Definition M (A : Type) : Type := State -> A * State.

Definition ret {A : Type} (a : A) : M A := fun st => (a, st).

Definition bind {A B : Type} (m : M A) (k : A -> M B) : M B :=
  fun st => let '(a, st1) := m st in k a st1.

Declare Scope go_scope.
Delimit Scope go_scope with go.
Notation "x <- m ;; k" := (bind m (fun x => k))
  (at level 100, m at next level, right associativity) : go_scope.
Notation "' p <- m ;; k" := (bind m (fun x => let p := x in k))
  (at level 100, p pattern, m at next level, right associativity) : go_scope.
Notation "m ;;; k" := (bind m (fun _ => k))
  (at level 100, right associativity) : go_scope.
Open Scope go_scope.

(** The state once one more program has been launched. *)
Definition record_launch (nim : string) (args : list string) (st : State) : State :=
  {| launched := (launched st ++ [{| cmd_path := nim; cmd_args := args |}])%list;
     sites_at := sites_at st |}.

(** [exec.Command(nim, args...).CombinedOutput()]: the launch is recorded. *)
Definition exec_Command (os : OS) (nim : string) (args : list string)
  : M (string * option error) :=
  fun st =>
    (exec_CombinedOutput os (launched st) nim args, record_launch nim args st).

(** Read [site.Envs]. *)
Definition load_Envs (site : loc) : M (list AppVariableDefinition) :=
  fun st => (Envs (sites_at st site), st).

(** Assign [site.Envs]; the other fields of the site stay. *)
Definition store_Envs (site : loc) (envs : list AppVariableDefinition) : M unit :=
  fun st =>
    (tt,
     {| launched := launched st;
        sites_at := fun l =>
          if Nat.eqb l site
          then {| Name := Name (sites_at st l); Envs := envs |}
          else sites_at st l |}).

(** ** Path Resolver and Process Invoker *)

Module Invoker.

(** [getNimPath]: lines 141-148. *)
Definition getNimPath (os : OS) : string * option error :=
  let '(homeDir, err) := os_UserHomeDir os in
  match err with
  | Some e => ("", Some e)
  | None => (filepath_Join os [homeDir; ".nimbella"; "cli"; "bin"; "nim"], None)
  end.

(** [runNim]: lines 151-158. *)
Definition runNim (os : OS) (args : list string) : M (string * option error) :=
  let '(nim, err) := getNimPath os in
  match err with
  | Some e => ret ("", Some e)
  | None =>
      '(output, err) <- exec_Command os nim args ;;
      ret (output, err)
  end.

End Invoker.

(** ** Deployment Orchestrator *)

Module Orchestrator.

(** The [for] loop of [deployServerless] (lines 31-37) with its accumulator
    [nimProjects]; [inr] is the early [return "", err]. *)
Fixpoint collectProjects (projects : list AppServerlessSpec)
  (nimProjects : list string) : list string + error :=
  match projects with
  | [] => inl nimProjects
  | project :: rest =>
      let '(nimProject, err) := Builder.convertToNimProject project in
      match err with
      | Some e => inr e
      | None => collectProjects rest (nimProjects ++ [nimProject])%list
      end
  end.

(** [deployServerless]: lines 29-40. *)
Definition deployServerless (os : OS) (projects : list AppServerlessSpec)
  : M (string * option error) :=
  match collectProjects projects [] with
  | inr e => ret ("", Some e)
  | inl nimProjects =>
      let args := (["project"; "deploy"; "--exclude"; "web"] ++ nimProjects)%list in
      Invoker.runNim os args
  end.

End Orchestrator.

(** ** Endpoint Injector *)

Module Injector.

(** [getServerlessURL]: lines 96-98. *)
Definition getServerlessURL (os : OS) : M (string * option error) :=
  Invoker.runNim os ["auth"; "current"; "--web"].

(** The search loop of [addURLToSite] (lines 119-123): [true] when some
    entry has the key [SERVERLESS_URL]. *)
Fixpoint hasServerlessURL (envs : list AppVariableDefinition) : bool :=
  match envs with
  | [] => false
  | env :: rest =>
      if Key env =? "SERVERLESS_URL" then true else hasServerlessURL rest
  end.

(** The variable built at lines 125-129. *)
Definition newEnv (url : string) : AppVariableDefinition :=
  {| Key := "SERVERLESS_URL";
     Value := url;
     Scope := AppVariableScope_BuildTime;
     Type_ := AppVariableType_General |}.

(** [addURLToSite]: lines 117-131. *)
Definition addURLToSite (url : string) (envs : list AppVariableDefinition)
  : list AppVariableDefinition * option error :=
  if hasServerlessURL envs then
    (envs, Some (errors_New msgConflictingUse))
  else
    ((envs ++ [newEnv url])%list, None).

(** The [for] loop of [addServerlessURLToStaticSites] (lines 107-112).  The
    assignment to [site.Envs] comes before the test of [err], as in the
    source. *)
Fixpoint updateSites (url : string) (sites : list loc) : M (option error) :=
  match sites with
  | [] => ret None
  | site :: rest =>
      envs <- load_Envs site ;;
      let '(envs', err) := addURLToSite url envs in
      store_Envs site envs' ;;;
      match err with
      | Some e => ret (Some e)
      | None => updateSites url rest
      end
  end.

(** [addServerlessURLToStaticSites]: lines 102-114. *)
Definition addServerlessURLToStaticSites (os : OS) (sites : list loc)
  : M (option error) :=
  '(url, err) <- getServerlessURL os ;;
  match err with
  | Some e => ret (Some e)
  | None => updateSites url sites
  end.

End Injector.

(** ** The design document's reading of the tool's output *)

Module Design.

(** White space in the sense of Go's [strings.TrimSpace], on ASCII. *)
Definition isSpace (c : ascii) : bool :=
  match nat_of_ascii c with
  | 9 | 10 | 11 | 12 | 13 | 32 => true
  | _ => false
  end.

Fixpoint trimLeft (s : string) : string :=
  match s with
  | EmptyString => EmptyString
  | String c rest => if isSpace c then trimLeft rest else s
  end.

Fixpoint trimRight (s : string) : string :=
  match s with
  | EmptyString => EmptyString
  | String c rest =>
      let rest' := trimRight rest in
      if isSpace c && (rest' =? "") then EmptyString else String c rest'
  end.

(** The design document says that the injector uses the text of the tool
    "trimmed of any framing the tool might add" (surrounding white space, a
    final newline).  This definition follows those words; nothing in the Go
    code corresponds to it. *)
Definition trimmed (raw : string) : string := trimRight (trimLeft raw).

(** The project references of the components, in the order of the list:
    what the design document calls "all references in input order". *)
Definition references (projects : list AppServerlessSpec) : list string :=
  map (fun p => fst (Builder.convertToNimProject p)) projects.

(** A component translates when the builder returns no error. *)
Definition translates (p : AppServerlessSpec) : bool :=
  match snd (Builder.convertToNimProject p) with
  | None => true
  | Some _ => false
  end.

(** The fixed head of the deployment command. *)
Definition preamble : list string := ["project"; "deploy"; "--exclude"; "web"].

(** A static site with the injector's variable added at the end of its
    variables and nothing else changed. *)
Definition appended (url : string) (s : AppStaticSiteSpec) : AppStaticSiteSpec :=
  {| Name := Name s; Envs := (Envs s ++ [Injector.newEnv url])%list |}.

(** The list of variables uses the key that the injector wants to add. *)
Definition usesKey (envs : list AppVariableDefinition) : Prop :=
  exists env, In env envs /\ Key env = "SERVERLESS_URL".

(** The arguments of the endpoint query. *)
Definition query : list string := ["auth"; "current"; "--web"].

(** An optional segment of a project reference. *)
Definition segment (mark part : string) : string :=
  if part =? "" then "" else mark ++ part.

End Design.

(** ** Concrete machines and specs used in the examples *)

Module Examples.

Definition newline : string := String (ascii_of_nat 10) EmptyString.

(** A machine on which [nim] prints the URL on a line of its own. *)
Definition os_home : OS :=
  {| os_UserHomeDir := ("/home/dev", None);
     filepath_Join := String.concat "/";
     exec_CombinedOutput := fun _ _ _ =>
       ("https://ns.example.com" ++ newline, None) |}.

(** A machine on which the home directory cannot be found ([$HOME] unset). *)
Definition os_nohome : OS :=
  {| os_UserHomeDir := ("", Some (foreign "$HOME is not defined"));
     filepath_Join := String.concat "/";
     exec_CombinedOutput := fun _ _ _ => ("", None) |}.

Definition gh_full : AppServerlessSpec :=
  {| Local := None;
     GitHub := Some {| Repo := "org/repo"; Branch := "main"; DeployOnPush := false |};
     SourceDir := "src" |}.

Definition gh_push : AppServerlessSpec :=
  {| Local := None;
     GitHub := Some {| Repo := ""; Branch := "main"; DeployOnPush := true |};
     SourceDir := "src" |}.

Definition local_ab : AppServerlessSpec :=
  {| Local := Some {| Path := "/a/b" |}; GitHub := None; SourceDir := "sub" |}.

Definition local_path_only : AppServerlessSpec :=
  {| Local := Some {| Path := "/a/b" |}; GitHub := None; SourceDir := "" |}.

Definition local_dir_only : AppServerlessSpec :=
  {| Local := Some {| Path := "" |}; GitHub := None; SourceDir := "sub" |}.

Definition local_empty : AppServerlessSpec :=
  {| Local := Some {| Path := "" |}; GitHub := None; SourceDir := "" |}.

Definition no_source : AppServerlessSpec :=
  {| Local := None; GitHub := None; SourceDir := "src" |}.

Definition both_sources : AppServerlessSpec :=
  {| Local := Some {| Path := "/a/b" |};
     GitHub := Some {| Repo := "org/repo"; Branch := ""; DeployOnPush := false |};
     SourceDir := "" |}.

Definition apiKey : AppVariableDefinition :=
  {| Key := "API_KEY"; Value := "k"; Scope := AppVariableScope_RunTime;
     Type_ := AppVariableType_Secret |}.

Definition taken : AppVariableDefinition :=
  {| Key := "SERVERLESS_URL"; Value := "mine"; Scope := AppVariableScope_RunTime;
     Type_ := AppVariableType_General |}.

(** Three sites: location 0 has one ordinary variable, location 1 already
    uses [SERVERLESS_URL], every other location is a site without
    variables. *)
Definition st0 : State :=
  {| launched := [];
     sites_at := fun l =>
       match l with
       | 0 => {| Name := "web"; Envs := [apiKey] |}
       | 1 => {| Name := "docs"; Envs := [apiKey; taken] |}
       | _ => {| Name := "blank"; Envs := [] |}
       end |}.

End Examples.

(** ** Retrieval of a domain record ([domainrecs]) *)

Module Domainrecs.

(** The part of [godo.Client] that [Retrieve] uses: [client.Domains.Record],
    which answers with a record pointer, a response pointer and an error.
    The record and response types belong to godo and are left open. *)
Record Client (DomainRecord Response : Type) : Type := {
  Domains_Record :
    string -> Z -> option DomainRecord * option Response * option error
}.

Arguments Domains_Record {DomainRecord Response} _ _ _.

(** [Retrieve]: lines 6-13 of the [domainrecs] file. *)
Definition Retrieve {DomainRecord Response : Type}
  (client : Client DomainRecord Response) (domain : string) (id : Z)
  : option DomainRecord * option error :=
  let '(r, _, err) := Domains_Record client domain id in
  match err with
  | Some e => (None, Some e)
  | None => (r, err)
  end.

End Domainrecs.

(** ** Measures used in the properties of the whole file *)

Module Measure.

(** Number of entries of a list of variables with the key [SERVERLESS_URL]. *)
Fixpoint countKey (envs : list AppVariableDefinition) : nat :=
  match envs with
  | [] => 0
  | env :: rest =>
      if Key env =? "SERVERLESS_URL" then S (countKey rest) else countKey rest
  end.

(** No argument of the invocation is the empty string. *)
Definition argsNonEmpty (inv : Invocation) : Prop :=
  forall a, In a (cmd_args inv) -> a <> "".

(** A spec that has only a local source, with the given path and no
    sub-directory. *)
Definition localOnly (path : string) : AppServerlessSpec :=
  {| Local := Some {| Path := path |}; GitHub := None; SourceDir := "" |}.

(** A machine on which [nim] is found and exits with an error after
    printing a diagnostic. *)
Definition os_toolfails : OS :=
  {| os_UserHomeDir := ("/home/dev", None);
     filepath_Join := String.concat "/";
     exec_CombinedOutput := fun _ _ _ =>
       ("Error: not logged in", Some (foreign "exit status 1")) |}.

(** A client that knows one record of [example.com] and answers every other
    request with an error, handing back a stale record with it. *)
Definition client_one : Domainrecs.Client string unit :=
  {| Domainrecs.Domains_Record := fun domain id =>
       if (domain =? "example.com") && Z.eqb id 7
       then (Some "A 203.0.113.5", Some tt, None)
       else (Some "stale", Some tt, Some (foreign "404 not found")) |}.

End Measure.

(** * Properties *)

(** ** Strings *)

Lemma append_assoc (a b c : string) : (a ++ b) ++ c = a ++ (b ++ c).
Proof.
  induction a as [|ch a IH]; simpl.
  - reflexivity.
  - now rewrite IH.
Qed.

Lemma append_empty_r (a : string) : a ++ "" = a.
Proof.
  induction a as [|ch a IH]; simpl; [reflexivity | now rewrite IH].
Qed.

Lemma eqb_empty_false (s : string) : s <> "" -> (s =? "") = false.
Proof. intro H. now apply String.eqb_neq. Qed.

Lemma segment_empty (mark : string) : Design.segment mark "" = "".
Proof. reflexivity. Qed.

Lemma segment_nonempty (mark part : string) :
  part <> "" -> Design.segment mark part = mark ++ part.
Proof.
  intro H. unfold Design.segment. now rewrite (eqb_empty_false _ H).
Qed.

(** ** Project Reference Builder *)

Section BuilderFacts.

Import Builder.

(** The GitHub branch of the builder, once the two guards are passed. *)
Lemma githubProject_reference (gh : GitHubSourceSpec) (sourceDir : string) :
  DeployOnPush gh = false ->
  Repo gh <> "" ->
  githubProject gh sourceDir =
    ("github:" ++ Repo gh ++ Design.segment "/" sourceDir
       ++ Design.segment "#" (Branch gh), None).
Proof.
  intros Hpush Hrepo. unfold githubProject, Design.segment.
  rewrite Hpush, (eqb_empty_false _ Hrepo).
  destruct (sourceDir =? "") eqn:Hdir; destruct (Branch gh =? "") eqn:Hbr;
    cbn [negb]; f_equal;
    repeat rewrite append_assoc; repeat rewrite append_empty_r; reflexivity.
Qed.

(** C1. For a spec with [GitHub] set, [Local] unset, [DeployOnPush] false
    and a non-empty repository, the builder succeeds and returns
    ["github:" + Repo], then ["/" + SourceDir] exactly when [SourceDir] is
    not empty, then ["#" + Branch] exactly when [Branch] is not empty; the
    sub-directory segment comes before the branch segment. *)
Theorem C1_github_reference (spec : AppServerlessSpec) (gh : GitHubSourceSpec) :
  GitHub spec = Some gh ->
  Local spec = None ->
  DeployOnPush gh = false ->
  Repo gh <> "" ->
  convertToNimProject spec =
    ("github:" ++ Repo gh
       ++ (if SourceDir spec =? "" then "" else "/" ++ SourceDir spec)
       ++ (if Branch gh =? "" then "" else "#" ++ Branch gh),
     None).
Proof.
  intros Hgh Hloc Hpush Hrepo. unfold convertToNimProject.
  rewrite Hloc, Hgh. now apply githubProject_reference.
Qed.

Lemma C1_github_reference_witness :
  convertToNimProject Examples.gh_full = ("github:org/repo/src#main", None).
Proof.
  exact (C1_github_reference Examples.gh_full
           {| Repo := "org/repo"; Branch := "main"; DeployOnPush := false |}
           eq_refl eq_refl eq_refl
           (fun H : "org/repo" = "" => eq_ind "org/repo"
              (fun s => match s with EmptyString => False | String _ _ => True end)
              I "" H)).
Defined.

(** C2. For a spec with [Local] set and [GitHub] unset the builder returns
    [Path + "/" + SourceDir] when both are non-empty, [Path] when only
    [Path] is non-empty, [SourceDir] when only [SourceDir] is non-empty, and
    fails with the missing-field error when both are empty. *)
Theorem C2_local_reference (spec : AppServerlessSpec) (lo : LocalSourceSpec) :
  Local spec = Some lo ->
  GitHub spec = None ->
  (Path lo <> "" -> SourceDir spec <> "" ->
     convertToNimProject spec = (Path lo ++ "/" ++ SourceDir spec, None)) /\
  (Path lo <> "" -> SourceDir spec = "" ->
     convertToNimProject spec = (Path lo, None)) /\
  (Path lo = "" -> SourceDir spec <> "" ->
     convertToNimProject spec = (SourceDir spec, None)) /\
  (Path lo = "" -> SourceDir spec = "" ->
     convertToNimProject spec = ("", Some (errors_New msgLocalRequired)) /\
     kindOf (errors_New msgLocalRequired) = MissingRequiredField).
Proof.
  intros Hlo Hgh. unfold convertToNimProject, localProject.
  rewrite Hlo, Hgh. split; [|split; [|split]].
  - intros Hp Hd. rewrite (eqb_empty_false _ Hp), (eqb_empty_false _ Hd).
    cbn [negb]. now rewrite append_assoc.
  - intros Hp Hd. rewrite (eqb_empty_false _ Hp), Hd. reflexivity.
  - intros Hp Hd. rewrite Hp, (eqb_empty_false _ Hd). reflexivity.
  - intros Hp Hd. rewrite Hp, Hd. split; reflexivity.
Qed.

Lemma C2_local_reference_witness :
  convertToNimProject Examples.local_ab = ("/a/b/sub", None) /\
  convertToNimProject Examples.local_path_only = ("/a/b", None) /\
  convertToNimProject Examples.local_dir_only = ("sub", None) /\
  convertToNimProject Examples.local_empty = ("", Some (errors_New msgLocalRequired)).
Proof.
  assert (Hne : forall c s, String c s <> "") by (intros c s H; discriminate H).
  split; [|split; [|split]].
  - apply (C2_local_reference Examples.local_ab {| Path := "/a/b" |} eq_refl eq_refl);
      apply Hne.
  - apply (C2_local_reference Examples.local_path_only {| Path := "/a/b" |} eq_refl eq_refl);
      [apply Hne | reflexivity].
  - apply (C2_local_reference Examples.local_dir_only {| Path := "" |} eq_refl eq_refl);
      [reflexivity | apply Hne].
  - apply (C2_local_reference Examples.local_empty {| Path := "" |} eq_refl eq_refl);
      reflexivity.
Defined.

(** C3. The builder fails with the missing-source error when neither
    [Local] nor [GitHub] is set, fails with the conflicting-source error
    when both are set, and builds a reference (through [githubProject] or
    [localProject]) only when exactly one of the two is set. *)
Theorem C3_source_selection (spec : AppServerlessSpec) :
  (Local spec = None -> GitHub spec = None ->
     convertToNimProject spec = ("", Some (errors_New msgMissingSource))) /\
  (Local spec <> None -> GitHub spec <> None ->
     convertToNimProject spec = ("", Some (errors_New msgConflictingSource))) /\
  (forall gh, Local spec = None -> GitHub spec = Some gh ->
     convertToNimProject spec = githubProject gh (SourceDir spec)) /\
  (forall lo, Local spec = Some lo -> GitHub spec = None ->
     convertToNimProject spec = localProject lo (SourceDir spec)) /\
  (snd (convertToNimProject spec) = None ->
     (Local spec = None /\ GitHub spec <> None) \/
     (Local spec <> None /\ GitHub spec = None)) /\
  kindOf (errors_New msgMissingSource) = MissingSourceSpec /\
  kindOf (errors_New msgConflictingSource) = ConflictingSourceSpec.
Proof.
  unfold convertToNimProject.
  destruct (Local spec) as [lo|] eqn:Hlo; destruct (GitHub spec) as [gh|] eqn:Hgh;
    (split; [|split; [|split; [|split; [|split; [|split]]]]]);
    try reflexivity; try congruence; intros.
  - discriminate.
  - right. split; congruence.
  - left. split; congruence.
  - discriminate.
Qed.

(** C4. For a spec with [GitHub] set, [Local] unset and [DeployOnPush]
    true, the builder fails with the unsupported-feature error whatever the
    other fields are; in particular the error is not the missing-field one,
    also when the repository is empty. *)
Theorem C4_deploy_on_push_first (spec : AppServerlessSpec) (gh : GitHubSourceSpec) :
  GitHub spec = Some gh ->
  Local spec = None ->
  DeployOnPush gh = true ->
  convertToNimProject spec = ("", Some (errors_New msgDeployOnPush)) /\
  kindOf (errors_New msgDeployOnPush) = UnsupportedFeature /\
  kindOf (errors_New msgDeployOnPush) <> MissingRequiredField.
Proof.
  intros Hgh Hlo Hpush. unfold convertToNimProject, githubProject.
  rewrite Hlo, Hgh, Hpush. repeat split. discriminate.
Qed.

Lemma C4_deploy_on_push_first_witness :
  Repo {| Repo := ""; Branch := "main"; DeployOnPush := true |} = "" /\
  convertToNimProject Examples.gh_push = ("", Some (errors_New msgDeployOnPush)).
Proof.
  split; [reflexivity |].
  apply (C4_deploy_on_push_first Examples.gh_push
           {| Repo := ""; Branch := "main"; DeployOnPush := true |});
    reflexivity.
Defined.

End BuilderFacts.

(** ** Deployment Orchestrator *)

Section OrchestratorFacts.

Import Builder Invoker Orchestrator.

Variable os : OS.

(** When every component translates, the loop returns the accumulator
    followed by the references in the order of the list. *)
Lemma collectProjects_all (projects : list AppServerlessSpec) :
  forall acc,
    forallb Design.translates projects = true ->
    collectProjects projects acc = inl (acc ++ Design.references projects)%list.
Proof.
  induction projects as [|p rest IH]; intros acc Hall; simpl.
  - now rewrite app_nil_r.
  - simpl in Hall. apply andb_true_iff in Hall as [Hp Hrest].
    unfold Design.translates in Hp.
    destruct (convertToNimProject p) as [ref [e|]] eqn:Hconv; simpl in *.
    + discriminate Hp.
    + rewrite (IH _ Hrest), <- app_assoc. reflexivity.
Qed.

(** The loop stops at the first component that does not translate. *)
Lemma collectProjects_first_failure
  (before : list AppServerlessSpec) (p : AppServerlessSpec)
  (after : list AppServerlessSpec) (e : error) :
  forall acc,
    forallb Design.translates before = true ->
    snd (convertToNimProject p) = Some e ->
    collectProjects (before ++ p :: after) acc = inr e.
Proof.
  induction before as [|q before IH]; intros acc Hall Hp; simpl.
  - destruct (convertToNimProject p) as [ref err]; simpl in Hp. now rewrite Hp.
  - simpl in Hall. apply andb_true_iff in Hall as [Hq Hbefore].
    unfold Design.translates in Hq.
    destruct (convertToNimProject q) as [ref [e'|]]; simpl in Hq.
    + discriminate Hq.
    + now apply IH.
Qed.

(** A list with a failing component splits at its first failing one. *)
Lemma first_failure_exists (projects : list AppServerlessSpec) :
  forallb Design.translates projects = false ->
  exists before p after e,
    projects = (before ++ p :: after)%list /\
    forallb Design.translates before = true /\
    snd (convertToNimProject p) = Some e.
Proof.
  induction projects as [|q rest IH]; simpl; intro H.
  - discriminate H.
  - destruct (Design.translates q) eqn:Hq; simpl in H.
    + destruct (IH H) as (before & p & after & e & -> & Hb & Hp).
      exists (q :: before), p, after, e. simpl. now rewrite Hq.
    + unfold Design.translates in Hq.
      destruct (snd (convertToNimProject q)) as [e|] eqn:He; [|discriminate Hq].
      exists [], q, rest, e. now repeat split.
Qed.

(** C5. When at least one component of the list fails translation, the
    orchestrator launches nothing (the state, and so the list of launched
    programs, is the one it started from) and returns the empty text with
    the builder error of the first failing component in input order. *)
Theorem C5_fail_fast (projects : list AppServerlessSpec) (st : State) :
  forallb Design.translates projects = false ->
  exists before p after e,
    projects = (before ++ p :: after)%list /\
    forallb Design.translates before = true /\
    snd (convertToNimProject p) = Some e /\
    deployServerless os projects st = (("", Some e), st) /\
    launched (snd (deployServerless os projects st)) = launched st.
Proof.
  intro Hfail.
  destruct (first_failure_exists _ Hfail) as (before & p & after & e & -> & Hb & Hp).
  exists before, p, after, e.
  assert (Hrun : deployServerless os (before ++ p :: after) st = (("", Some e), st)).
  { unfold deployServerless.
    now rewrite (collectProjects_first_failure before p after e [] Hb Hp). }
  repeat split; try assumption. now rewrite Hrun.
Qed.

(** What [runNim] does when the path of the tool is known: one launch. *)
Lemma runNim_resolved (nim : string) (args : list string) (st : State) :
  getNimPath os = (nim, None) ->
  runNim os args st =
    (exec_CombinedOutput os (launched st) nim args, record_launch nim args st).
Proof.
  intro Hpath. unfold runNim. rewrite Hpath.
  unfold bind, exec_Command, ret.
  now destruct (exec_CombinedOutput os (launched st) nim args).
Qed.

(** What [runNim] does when the home directory is not known: no launch. *)
Lemma runNim_unresolved (nim : string) (e : error) (args : list string) (st : State) :
  getNimPath os = (nim, Some e) ->
  runNim os args st = (("", Some e), st).
Proof.
  intro Hpath. unfold runNim. now rewrite Hpath.
Qed.

(** C6, amended. When every component translates and the path of the tool
    is resolved, the orchestrator launches exactly one program: the tool,
    with the arguments [project deploy --exclude web] followed by the
    references of the components in input order, and it returns what that
    program returned.  When the path is not resolved it launches nothing
    and returns the resolver's error. *)
Theorem C6_single_invocation (projects : list AppServerlessSpec) (st : State) :
  forallb Design.translates projects = true ->
  (forall nim, getNimPath os = (nim, None) ->
     launched (snd (deployServerless os projects st)) =
       (launched st ++
          [{| cmd_path := nim;
              cmd_args := ["project"; "deploy"; "--exclude"; "web"]
                            ++ Design.references projects |}])%list /\
     fst (deployServerless os projects st) =
       exec_CombinedOutput os (launched st) nim
         (["project"; "deploy"; "--exclude"; "web"] ++ Design.references projects)%list) /\
  (forall nim e, getNimPath os = (nim, Some e) ->
     deployServerless os projects st = (("", Some e), st)).
Proof.
  intro Hall. unfold deployServerless.
  rewrite (collectProjects_all projects [] Hall). cbn [app].
  split.
  - intros nim Hpath. now rewrite (runNim_resolved nim _ st Hpath).
  - intros nim e Hpath. now apply (runNim_unresolved nim).
Qed.

End OrchestratorFacts.

(** ** Endpoint Injector *)

Section InjectorFacts.

Import Invoker Injector.

(** [hasServerlessURL] decides whether some entry has the key. *)
Lemma hasServerlessURL_true (envs : list AppVariableDefinition) :
  hasServerlessURL envs = true <-> Design.usesKey envs.
Proof.
  unfold Design.usesKey. induction envs as [|env rest IH]; simpl.
  - split; [discriminate | intros (env & [] & _)].
  - destruct (Key env =? "SERVERLESS_URL") eqn:Hkey.
    + split; [|reflexivity]. intros _. exists env. split; [now left|].
      now apply String.eqb_eq.
    + rewrite IH. split.
      * intros (env' & Hin & Hk). exists env'. split; [now right | exact Hk].
      * intros (env' & [<-|Hin] & Hk).
        -- apply String.eqb_neq in Hkey. contradiction.
        -- now exists env'.
Qed.

Lemma hasServerlessURL_false (envs : list AppVariableDefinition) :
  hasServerlessURL envs = false <->
  forall env, In env envs -> Key env <> "SERVERLESS_URL".
Proof.
  split.
  - intros Hno env Hin Hkey.
    assert (Hyes : hasServerlessURL envs = true)
      by (apply hasServerlessURL_true; now exists env).
    congruence.
  - intro Hall. destruct (hasServerlessURL envs) eqn:Hhas; [|reflexivity].
    apply hasServerlessURL_true in Hhas as (env & Hin & Hkey).
    now destruct (Hall env Hin).
Qed.

(** Once the variable is appended the key is there. *)
Lemma hasServerlessURL_appended (url : string) (envs : list AppVariableDefinition) :
  hasServerlessURL (envs ++ [newEnv url]) = true.
Proof.
  apply hasServerlessURL_true. exists (newEnv url). split; [|reflexivity].
  apply in_or_app. right. now left.
Qed.

Lemma site_eta (s : AppStaticSiteSpec) : {| Name := Name s; Envs := Envs s |} = s.
Proof. now destruct s. Qed.

(** One turn of the loop. *)
Lemma updateSites_cons (url : string) (site : loc) (rest : list loc) (st : State) :
  updateSites url (site :: rest) st =
    if hasServerlessURL (Envs (sites_at st site))
    then (Some (errors_New msgConflictingUse),
          snd (store_Envs site (Envs (sites_at st site)) st))
    else updateSites url rest
           (snd (store_Envs site (Envs (sites_at st site) ++ [newEnv url]) st)).
Proof.
  cbn [updateSites]. unfold bind, load_Envs, addURLToSite.
  now destruct (hasServerlessURL (Envs (sites_at st site))).
Qed.

Lemma store_Envs_same (site : loc) (envs : list AppVariableDefinition) (st : State) :
  sites_at (snd (store_Envs site envs st)) site =
    {| Name := Name (sites_at st site); Envs := envs |}.
Proof. simpl. now rewrite Nat.eqb_refl. Qed.

Lemma store_Envs_other (site l : loc) (envs : list AppVariableDefinition) (st : State) :
  l <> site ->
  sites_at (snd (store_Envs site envs st)) l = sites_at st l.
Proof. intro Hne. simpl. apply Nat.eqb_neq in Hne. now rewrite Hne. Qed.

(** The loop launches nothing. *)
Lemma updateSites_launched (url : string) (sites : list loc) :
  forall st, launched (snd (updateSites url sites st)) = launched st.
Proof.
  induction sites as [|site rest IH]; intro st.
  - reflexivity.
  - rewrite updateSites_cons.
    destruct (hasServerlessURL (Envs (sites_at st site))); [reflexivity|].
    now rewrite IH.
Qed.

(** The loop leaves alone every site that is not in the list. *)
Lemma updateSites_outside (url : string) (sites : list loc) (l : loc) :
  forall st, ~ In l sites ->
    sites_at (snd (updateSites url sites st)) l = sites_at st l.
Proof.
  induction sites as [|site rest IH]; intros st Hout.
  - reflexivity.
  - assert (Hne : l <> site) by (intros ->; apply Hout; now left).
    assert (Hrest : ~ In l rest) by (intro Hin; apply Hout; now right).
    rewrite updateSites_cons.
    destruct (hasServerlessURL (Envs (sites_at st site))).
    + now apply store_Envs_other.
    + rewrite (IH _ Hrest). now apply store_Envs_other.
Qed.

(** A run of the loop without error: the sites of the list are pairwise
    distinct, none had the key, and each one got the new variable at the
    end of its list. *)
Lemma updateSites_success (url : string) (sites : list loc) :
  forall st,
    fst (updateSites url sites st) = None ->
    NoDup sites /\
    forall site, In site sites ->
      hasServerlessURL (Envs (sites_at st site)) = false /\
      sites_at (snd (updateSites url sites st)) site = Design.appended url (sites_at st site).
Proof.
  induction sites as [|s rest IH]; intros st Hok.
  - split; [constructor | intros site []].
  - rewrite updateSites_cons in Hok |- *.
    destruct (hasServerlessURL (Envs (sites_at st s))) eqn:Hkey; [discriminate Hok|].
    set (st1 := snd (store_Envs s (Envs (sites_at st s) ++ [newEnv url]) st)) in *.
    destruct (IH st1 Hok) as [Hnodup Hrest].
    assert (Hfresh : ~ In s rest).
    { intro Hin. destruct (Hrest s Hin) as [Hno _].
      unfold st1 in Hno. rewrite store_Envs_same in Hno. cbn [Envs] in Hno.
      rewrite hasServerlessURL_appended in Hno. discriminate Hno. }
    split; [now constructor|].
    intros site [<-|Hin].
    + split; [exact Hkey|].
      rewrite (updateSites_outside url rest s st1 Hfresh).
      unfold st1. now rewrite store_Envs_same.
    + assert (Hne : site <> s) by (intros ->; contradiction).
      destruct (Hrest site Hin) as [Hno Hfinal].
      unfold st1 in Hno, Hfinal at 2. rewrite (store_Envs_other s site _ st Hne) in Hno, Hfinal.
      now split.
Qed.

(** A run of the loop that meets a site with the key after distinct sites
    without it: the error is the conflict, the earlier sites keep the new
    variable, and no other site is changed. *)
Lemma updateSites_conflict (url : string) (site : loc) (after : list loc) :
  forall (before : list loc) (st : State),
    NoDup before ->
    (forall b, In b before -> hasServerlessURL (Envs (sites_at st b)) = false) ->
    hasServerlessURL (Envs (sites_at st site)) = true ->
    fst (updateSites url (before ++ site :: after) st) =
      Some (errors_New msgConflictingUse) /\
    (forall b, In b before ->
       sites_at (snd (updateSites url (before ++ site :: after) st)) b =
         Design.appended url (sites_at st b)) /\
    (forall c, ~ In c before ->
       sites_at (snd (updateSites url (before ++ site :: after) st)) c = sites_at st c).
Proof.
  induction before as [|b0 before IH]; intros st Hnodup Hclean Hkey;
    cbn [app]; rewrite updateSites_cons.
  - rewrite Hkey. cbv iota. cbn [fst snd]. split; [reflexivity|]. split; [intros b []|].
    intros c _. destruct (Nat.eq_dec c site) as [->|Hne].
    + rewrite store_Envs_same. apply site_eta.
    + now apply store_Envs_other.
  - rewrite (Hclean b0 (or_introl eq_refl)). cbv iota.
    set (st1 := snd (store_Envs b0 (Envs (sites_at st b0) ++ [newEnv url]) st)).
    inversion Hnodup as [|x xs Hfresh Hnodup']; subst.
    assert (Hsite : site <> b0).
    { intros ->. rewrite (Hclean b0 (or_introl eq_refl)) in Hkey. discriminate Hkey. }
    assert (Hsame : forall l, l <> b0 -> sites_at st1 l = sites_at st l)
      by (intros l Hl; now apply store_Envs_other).
    destruct (IH st1 Hnodup') as (Herr & Hbefore & Hother).
    + intros b Hb. rewrite Hsame; [apply Hclean; now right|].
      intros ->. contradiction.
    + now rewrite Hsame.
    + split; [exact Herr|]. split.
      * intros b [<-|Hb].
        -- rewrite (Hother b0 Hfresh). unfold st1. now rewrite store_Envs_same.
        -- rewrite (Hbefore b Hb), Hsame; [reflexivity|]. intros ->. contradiction.
      * intros c Hc. rewrite Hother; [|intro; apply Hc; now right].
        apply Hsame. intros ->. apply Hc. now left.
Qed.

Variable os : OS.

(** The injector when the path of the tool is known and the query answers
    without error: one launch, then the loop. *)
Lemma injector_fetched (nim url : string) (sites : list loc) (st : State) :
  getNimPath os = (nim, None) ->
  exec_CombinedOutput os (launched st) nim ["auth"; "current"; "--web"] = (url, None) ->
  addServerlessURLToStaticSites os sites st =
    updateSites url sites (record_launch nim ["auth"; "current"; "--web"] st).
Proof.
  intros Hpath Hout. unfold addServerlessURLToStaticSites, getServerlessURL, runNim.
  rewrite Hpath. unfold bind, exec_Command, ret. now rewrite Hout.
Qed.

(** A call of the injector without error went through exactly that path. *)
Lemma injector_success (sites : list loc) (st : State) :
  fst (addServerlessURLToStaticSites os sites st) = None ->
  exists nim url,
    getNimPath os = (nim, None) /\
    exec_CombinedOutput os (launched st) nim ["auth"; "current"; "--web"] = (url, None) /\
    addServerlessURLToStaticSites os sites st =
      updateSites url sites (record_launch nim ["auth"; "current"; "--web"] st).
Proof.
  intro Hok.
  destruct (getNimPath os) as [nim [e|]] eqn:Hpath.
  - unfold addServerlessURLToStaticSites, getServerlessURL, runNim in Hok.
    rewrite Hpath in Hok. discriminate Hok.
  - destruct (exec_CombinedOutput os (launched st) nim ["auth"; "current"; "--web"])
      as [url [e|]] eqn:Hout.
    + unfold addServerlessURLToStaticSites, getServerlessURL, runNim in Hok.
      rewrite Hpath in Hok. unfold bind, exec_Command, ret in Hok.
      rewrite Hout in Hok. discriminate Hok.
    + exists nim, url. split; [reflexivity|]. split; [exact Hout|].
      now apply injector_fetched.
Qed.

End InjectorFacts.

Section InjectorClaims.

Import Invoker Injector.

Variable os : OS.

(** C7. After a call of the injector that returns no error, the tool was
    launched exactly once, with [auth current --web], before any site was
    touched, and every site of the batch, none of which had an entry with
    the key [SERVERLESS_URL], has exactly one more entry, at the end: key
    [SERVERLESS_URL], value the text of that one launch (the same for all
    sites), scope build-time, type general.  The earlier entries are the
    same, in the same order, and the rest of the site is unchanged. *)
Theorem C7_injection_appends (sites : list loc) (st st' : State) :
  addServerlessURLToStaticSites os sites st = (None, st') ->
  exists nim url,
    getNimPath os = (nim, None) /\
    exec_CombinedOutput os (launched st) nim ["auth"; "current"; "--web"] = (url, None) /\
    launched st' =
      (launched st ++ [{| cmd_path := nim; cmd_args := ["auth"; "current"; "--web"] |}])%list /\
    forall site, In site sites ->
      ~ Design.usesKey (Envs (sites_at st site)) /\
      Envs (sites_at st' site) =
        (Envs (sites_at st site) ++
           [{| Key := "SERVERLESS_URL"; Value := url;
               Scope := AppVariableScope_BuildTime;
               Type_ := AppVariableType_General |}])%list /\
      Name (sites_at st' site) = Name (sites_at st site).
Proof.
  intro Hrun.
  assert (Hok : fst (addServerlessURLToStaticSites os sites st) = None)
    by now rewrite Hrun.
  destruct (injector_success os sites st Hok) as (nim & url & Hpath & Hout & Hloop).
  exists nim, url. split; [exact Hpath|]. split; [exact Hout|].
  rewrite Hloop in Hrun, Hok.
  assert (Hst' : st' = snd (updateSites url sites
                              (record_launch nim ["auth"; "current"; "--web"] st)))
    by now rewrite Hrun.
  destruct (updateSites_success url sites _ Hok) as [_ Hsites].
  split.
  - rewrite Hst', updateSites_launched. reflexivity.
  - intros site Hin. destruct (Hsites site Hin) as [Hno Hfinal].
    rewrite Hst', Hfinal. cbn [record_launch sites_at] in Hno |- *.
    split; [|split; reflexivity].
    intro Huses. apply hasServerlessURL_true in Huses. congruence.
Qed.

(** When the list of variables already has an entry with the key
    [SERVERLESS_URL], [addURLToSite] fails with the conflicting-variable
    error and returns the list it was given. *)
Lemma addURLToSite_conflict (url : string) (envs : list AppVariableDefinition) :
  Design.usesKey envs ->
  addURLToSite url envs = (envs, Some (errors_New msgConflictingUse)) /\
  kindOf (errors_New msgConflictingUse) = ConflictingVariable.
Proof.
  intro Huses. apply hasServerlessURL_true in Huses.
  unfold addURLToSite. rewrite Huses. now split.
Qed.

(** At the level of a batch: once the endpoint query has answered,
    a site of the batch that has the key makes the call fail with the
    conflict, and that site is as it was. *)
Lemma injector_conflict_in_batch
  (nim url : string) (sites : list loc) (site : loc) (st : State) :
  getNimPath os = (nim, None) ->
  exec_CombinedOutput os (launched st) nim ["auth"; "current"; "--web"] = (url, None) ->
  In site sites ->
  Design.usesKey (Envs (sites_at st site)) ->
  fst (addServerlessURLToStaticSites os sites st) = Some (errors_New msgConflictingUse) /\
  sites_at (snd (addServerlessURLToStaticSites os sites st)) site = sites_at st site.
Proof.
  intros Hpath Hout Hin Huses. apply hasServerlessURL_true in Huses.
  rewrite (injector_fetched os nim url sites st Hpath Hout).
  change (sites_at st site)
    with (sites_at (record_launch nim ["auth"; "current"; "--web"] st) site) in Huses |- *.
  generalize dependent (record_launch nim ["auth"; "current"; "--web"] st).
  clear Hpath Hout st.
  induction sites as [|s rest IH]; intros st Huses; [destruct Hin|].
  rewrite updateSites_cons.
  destruct (hasServerlessURL (Envs (sites_at st s))) eqn:Hs.
  - split; [reflexivity|]. cbn [snd].
    destruct (Nat.eq_dec site s) as [->|Hne].
    + rewrite store_Envs_same. apply site_eta.
    + now apply store_Envs_other.
  - assert (Hne : site <> s) by (intros ->; congruence).
    destruct Hin as [Heq|Hin]; [now destruct Hne|].
    set (st1 := snd (store_Envs s (Envs (sites_at st s) ++ [newEnv url]) st)).
    assert (Hsame : sites_at st1 site = sites_at st site)
      by now apply store_Envs_other.
    destruct (IH Hin st1) as [Herr Hkeep]; [now rewrite Hsame|].
    split; [exact Herr|]. now rewrite Hkeep.
Qed.

(** C9, amended. The value that the injector gives to [SERVERLESS_URL] is
    the text returned by the launch of [auth current --web] as it is: the
    code does not trim it. *)
Theorem C9_value_is_raw_output (sites : list loc) (site : loc) (st : State) :
  fst (addServerlessURLToStaticSites os sites st) = None ->
  In site sites ->
  exists nim,
    getNimPath os = (nim, None) /\
    map Value (Envs (sites_at (snd (addServerlessURLToStaticSites os sites st)) site)) =
      (map Value (Envs (sites_at st site)) ++
         [fst (exec_CombinedOutput os (launched st) nim ["auth"; "current"; "--web"])])%list.
Proof.
  intros Hok Hin.
  destruct (injector_success os sites st Hok) as (nim & url & Hpath & Hout & Hloop).
  exists nim. split; [exact Hpath|].
  rewrite Hloop in Hok |- *.
  destruct (updateSites_success url sites _ Hok) as [_ Hsites].
  destruct (Hsites site Hin) as [_ Hfinal].
  rewrite Hfinal, Hout. cbn [record_launch sites_at Design.appended Envs fst].
  now rewrite map_app.
Qed.

(** Let the endpoint query have answered [url], let the sites of the batch
    be distinct, and let [site] be the first of the batch that already has
    an entry with the key.  Then the call returns the conflict error, every
    site before [site] keeps the variable that was appended to it, and
    [site] and every site after it are unchanged. *)
Lemma injector_partial_commit
  (nim url : string) (before : list loc) (site : loc) (after : list loc) (st : State) :
  getNimPath os = (nim, None) ->
  exec_CombinedOutput os (launched st) nim ["auth"; "current"; "--web"] = (url, None) ->
  NoDup (before ++ site :: after) ->
  (forall b, In b before -> ~ Design.usesKey (Envs (sites_at st b))) ->
  Design.usesKey (Envs (sites_at st site)) ->
  fst (addServerlessURLToStaticSites os (before ++ site :: after) st) =
    Some (errors_New msgConflictingUse) /\
  (forall b, In b before ->
     sites_at (snd (addServerlessURLToStaticSites os (before ++ site :: after) st)) b =
       {| Name := Name (sites_at st b);
          Envs := Envs (sites_at st b) ++
                    [{| Key := "SERVERLESS_URL"; Value := url;
                        Scope := AppVariableScope_BuildTime;
                        Type_ := AppVariableType_General |}] |}) /\
  (forall c, In c (site :: after) ->
     sites_at (snd (addServerlessURLToStaticSites os (before ++ site :: after) st)) c =
       sites_at st c).
Proof.
  intros Hpath Hout Hnodup Hclean Huses.
  rewrite (injector_fetched os nim url _ st Hpath Hout).
  apply hasServerlessURL_true in Huses.
  assert (Hbefore : NoDup before) by now apply NoDup_app_remove_r in Hnodup.
  assert (Hclean' : forall b, In b before ->
            hasServerlessURL
              (Envs (sites_at (record_launch nim ["auth"; "current"; "--web"] st) b)) = false).
  { intros b Hb. apply hasServerlessURL_false. intros env Hin Hkey.
    apply (Hclean b Hb). now exists env. }
  destruct (updateSites_conflict url site after before
              (record_launch nim ["auth"; "current"; "--web"] st)
              Hbefore Hclean' Huses) as (Herr & Hkept & Hother).
  split; [exact Herr|]. split.
  - intros b Hb. now rewrite (Hkept b Hb).
  - intros c Hc. rewrite Hother; [reflexivity|].
    intro Hcb. revert Hnodup Hc Hcb. clear. intros Hnodup Hc Hcb.
    induction before as [|x xs IH]; [destruct Hcb|].
    cbn [app] in Hnodup. inversion Hnodup as [|y ys Hfresh Hnodup']; subst.
    destruct Hcb as [->|Hcb].
    + apply Hfresh. apply in_or_app. now right.
    + now apply IH.
Qed.

End InjectorClaims.

(** ** The claims on concrete machines *)

Section Concrete.

Import Examples.

(** The design document's trimming on two texts. *)
Example trimmed_spaces : Design.trimmed (" a b  " ++ newline) = "a b".
Proof. reflexivity. Qed.

Example trimmed_url :
  Design.trimmed ("https://ns.example.com" ++ newline) = "https://ns.example.com".
Proof. reflexivity. Qed.

(** The resolved path on the machine with a home directory. *)
Example getNimPath_home :
  Invoker.getNimPath os_home = ("/home/dev/.nimbella/cli/bin/nim", None).
Proof. reflexivity. Qed.

(** Three components of which the second fails: nothing is launched. *)
Lemma C5_fail_fast_witness :
  forallb Design.translates [gh_full; local_empty; local_ab] = false /\
  exists before p after e,
    [gh_full; local_empty; local_ab] = (before ++ p :: after)%list /\
    forallb Design.translates before = true /\
    snd (Builder.convertToNimProject p) = Some e /\
    Orchestrator.deployServerless os_home [gh_full; local_empty; local_ab] st0 =
      (("", Some e), st0) /\
    launched (snd (Orchestrator.deployServerless os_home
                     [gh_full; local_empty; local_ab] st0)) = launched st0.
Proof.
  split; [reflexivity|].
  exact (C5_fail_fast os_home [gh_full; local_empty; local_ab] st0 eq_refl).
Defined.

Example deploy_second_fails :
  Orchestrator.deployServerless os_home [gh_full; local_empty; local_ab] st0 =
    (("", Some (errors_New msgLocalRequired)), st0).
Proof. reflexivity. Qed.

(** C6 as stated fails where the home directory is unknown: the component
    translates, and yet no program is launched. *)
Lemma C6_counterexample :
  forallb Design.translates [local_ab] = true /\
  launched st0 = [] /\
  launched (snd (Orchestrator.deployServerless os_nohome [local_ab] st0)) = [] /\
  Orchestrator.deployServerless os_nohome [local_ab] st0 =
    (("", Some (foreign "$HOME is not defined")), st0).
Proof. repeat split. Qed.

Lemma C6_single_invocation_witness :
  forallb Design.translates [gh_full; local_ab] = true /\
  launched (snd (Orchestrator.deployServerless os_home [gh_full; local_ab] st0)) =
    [{| cmd_path := "/home/dev/.nimbella/cli/bin/nim";
        cmd_args := ["project"; "deploy"; "--exclude"; "web";
                     "github:org/repo/src#main"; "/a/b/sub"] |}].
Proof.
  split; [reflexivity|].
  exact (proj1 (proj1 (C6_single_invocation os_home [gh_full; local_ab] st0 eq_refl)
                  "/home/dev/.nimbella/cli/bin/nim" eq_refl)).
Defined.

(** Two sites without the key: each gets the variable. *)
Lemma C7_injection_appends_witness :
  Injector.addServerlessURLToStaticSites os_home [0; 2] st0 =
    (None, snd (Injector.addServerlessURLToStaticSites os_home [0; 2] st0)) /\
  exists nim url,
    Invoker.getNimPath os_home = (nim, None) /\
    exec_CombinedOutput os_home (launched st0) nim ["auth"; "current"; "--web"] =
      (url, None) /\
    launched (snd (Injector.addServerlessURLToStaticSites os_home [0; 2] st0)) =
      (launched st0 ++
         [{| cmd_path := nim; cmd_args := ["auth"; "current"; "--web"] |}])%list /\
    forall site, In site [0; 2] ->
      ~ Design.usesKey (Envs (sites_at st0 site)) /\
      Envs (sites_at (snd (Injector.addServerlessURLToStaticSites os_home [0; 2] st0)) site) =
        (Envs (sites_at st0 site) ++
           [{| Key := "SERVERLESS_URL"; Value := url;
               Scope := AppVariableScope_BuildTime;
               Type_ := AppVariableType_General |}])%list /\
      Name (sites_at (snd (Injector.addServerlessURLToStaticSites os_home [0; 2] st0)) site) =
        Name (sites_at st0 site).
Proof.
  split; [reflexivity|].
  exact (C7_injection_appends os_home [0; 2] st0 _ eq_refl).
Defined.

Example inject_two_sites :
  map Key (Envs (sites_at (snd (Injector.addServerlessURLToStaticSites os_home [0; 2] st0)) 0)) =
    ["API_KEY"; "SERVERLESS_URL"] /\
  map Key (Envs (sites_at (snd (Injector.addServerlessURLToStaticSites os_home [0; 2] st0)) 2)) =
    ["SERVERLESS_URL"].
Proof. split; reflexivity. Qed.

Lemma usesKey_site1 : Design.usesKey [apiKey; taken].
Proof. exists taken. split; [right; now left | reflexivity]. Defined.

(** C9 as stated fails: the tool ends its line, and the newline is part of
    the value. *)
Lemma C9_counterexample :
  fst (Injector.addServerlessURLToStaticSites os_home [0] st0) = None /\
  fst (exec_CombinedOutput os_home (launched st0)
         "/home/dev/.nimbella/cli/bin/nim" ["auth"; "current"; "--web"]) =
    "https://ns.example.com" ++ newline /\
  map Value (Envs (sites_at (snd (Injector.addServerlessURLToStaticSites os_home [0] st0)) 0)) =
    ["k"; "https://ns.example.com" ++ newline] /\
  Design.trimmed ("https://ns.example.com" ++ newline) = "https://ns.example.com" /\
  "https://ns.example.com" ++ newline <> Design.trimmed ("https://ns.example.com" ++ newline).
Proof. repeat split. discriminate. Qed.

Lemma C9_value_is_raw_output_witness :
  fst (Injector.addServerlessURLToStaticSites os_home [0; 2] st0) = None /\
  In 2 [0; 2] /\
  exists nim,
    Invoker.getNimPath os_home = (nim, None) /\
    map Value (Envs (sites_at (snd (Injector.addServerlessURLToStaticSites os_home [0; 2] st0)) 2)) =
      (map Value (Envs (sites_at st0 2)) ++
         [fst (exec_CombinedOutput os_home (launched st0) nim ["auth"; "current"; "--web"])])%list.
Proof.
  split; [reflexivity|]. split; [right; now left|].
  exact (C9_value_is_raw_output os_home [0; 2] 2 st0 eq_refl
           (or_intror (or_introl eq_refl))).
Defined.

End Concrete.

(** * Further properties of the code *)

(** ** The builder as a whole *)

Section BuilderWhole.

Import Builder.

Lemma append_nonempty_l (a b : string) : a <> "" -> a ++ b <> "".
Proof. destruct a; [congruence | discriminate]. Qed.

(** A reference returned without error is not the empty string. *)
Lemma convert_success_nonempty (spec : AppServerlessSpec) (ref : string) :
  convertToNimProject spec = (ref, None) -> ref <> "".
Proof.
  unfold convertToNimProject, githubProject, localProject.
  destruct (Local spec) as [lo|]; destruct (GitHub spec) as [gh|];
    try discriminate.
  - destruct (Path lo) as [|c p] eqn:Hp; destruct (SourceDir spec) as [|d q] eqn:Hd;
      cbn; intro H; inversion H; discriminate.
  - destruct (DeployOnPush gh); [discriminate|].
    destruct (Repo gh =? ""); [discriminate|].
    destruct (negb (SourceDir spec =? "")); destruct (negb (Branch gh =? ""));
      cbn; intro H; inversion H; discriminate.
Qed.

(** The errors of the builder are its own five. *)
Lemma convert_failure (spec : AppServerlessSpec) (ref : string) (e : error) :
  convertToNimProject spec = (ref, Some e) ->
  ref = "" /\
  In e [errors_New msgMissingSource; errors_New msgConflictingSource;
        errors_New msgDeployOnPush; errors_New msgRepoRequired;
        errors_New msgLocalRequired].
Proof.
  unfold convertToNimProject, githubProject, localProject.
  destruct (Local spec) as [lo|]; destruct (GitHub spec) as [gh|].
  - intro H; inversion H; subst. split; [reflexivity|]. right. now left.
  - destruct (negb (Path lo =? "")); destruct (negb (SourceDir spec =? ""));
      intro H; inversion H; subst. split; [reflexivity|]. simpl. tauto.
  - destruct (DeployOnPush gh).
    + intro H; inversion H; subst. split; [reflexivity|]. simpl. tauto.
    + destruct (Repo gh =? "").
      * intro H; inversion H; subst. split; [reflexivity|]. simpl. tauto.
      * destruct (negb (SourceDir spec =? "")); destruct (negb (Branch gh =? ""));
          intro H; inversion H.
  - intro H; inversion H; subst. split; [reflexivity|]. now left.
Qed.

(** X1. The builder returns the empty string exactly when it returns an
    error: a reference that comes without error is never empty, and an
    error never comes with a text. *)
Theorem X1_reference_empty_iff_error (spec : AppServerlessSpec) :
  fst (convertToNimProject spec) = "" <-> snd (convertToNimProject spec) <> None.
Proof.
  destruct (convertToNimProject spec) as [ref [e|]] eqn:Hconv; cbn [fst snd].
  - split; [discriminate|]. intros _. now destruct (convert_failure spec ref e Hconv).
  - split; [|congruence]. intro Href.
    now destruct (convert_success_nonempty spec ref Hconv).
Qed.

(** X2. Whatever the spec, an error of the builder is one of the five
    errors that [nimbella.go] creates for it; the builder fails in no other
    way. *)
Theorem X2_builder_errors (spec : AppServerlessSpec) (e : error) :
  snd (convertToNimProject spec) = Some e ->
  In e [errors_New msgMissingSource; errors_New msgConflictingSource;
        errors_New msgDeployOnPush; errors_New msgRepoRequired;
        errors_New msgLocalRequired].
Proof.
  destruct (convertToNimProject spec) as [ref err] eqn:Hconv. cbn [snd].
  intros ->. now destruct (convert_failure spec ref e Hconv).
Qed.

Lemma X2_builder_errors_witness :
  In (errors_New msgRepoRequired)
    [errors_New msgMissingSource; errors_New msgConflictingSource;
     errors_New msgDeployOnPush; errors_New msgRepoRequired;
     errors_New msgLocalRequired].
Proof.
  exact (X2_builder_errors
           {| Local := None;
              GitHub := Some {| Repo := ""; Branch := "main"; DeployOnPush := false |};
              SourceDir := "src" |}
           (errors_New msgRepoRequired) eq_refl).
Defined.

(** X4. The text of a reference does not tell the kind of source it came
    from: a local path goes through unchanged, so every reference that the
    builder returns, also one of a GitHub source, is the reference of the
    spec that has that text as its local path and no sub-directory. *)
Theorem X4_local_path_unchanged (spec : AppServerlessSpec) (ref : string) :
  convertToNimProject spec = (ref, None) ->
  convertToNimProject (Measure.localOnly ref) = (ref, None).
Proof.
  intro Hconv. pose proof (convert_success_nonempty spec ref Hconv) as Hne.
  unfold convertToNimProject, localProject, Measure.localOnly. cbn.
  now rewrite (eqb_empty_false _ Hne).
Qed.

Lemma X4_local_path_unchanged_witness :
  convertToNimProject (Measure.localOnly "github:org/repo/src#main") =
    ("github:org/repo/src#main", None).
Proof.
  exact (X4_local_path_unchanged Examples.gh_full "github:org/repo/src#main" eq_refl).
Defined.

(** X5. The sub-directory is joined with a plain ["/"]: a repository [r]
    with sub-directory [d] gives the reference of the repository [r/d]
    without sub-directory, and the same holds for a local path.  The
    reference does not keep where the sub-directory starts. *)
Theorem X5_subdirectory_merges (r d b : string) (push : bool) :
  r <> "" ->
  d <> "" ->
  githubProject {| Repo := r; Branch := b; DeployOnPush := push |} d =
    githubProject {| Repo := r ++ "/" ++ d; Branch := b; DeployOnPush := push |} "" /\
  localProject {| Path := r |} d = localProject {| Path := r ++ "/" ++ d |} "".
Proof.
  intros Hr Hd.
  assert (Hrd : r ++ "/" ++ d <> "") by now apply append_nonempty_l.
  unfold githubProject, localProject. cbn [Repo Branch DeployOnPush Path].
  rewrite (eqb_empty_false _ Hr), (eqb_empty_false _ Hd), (eqb_empty_false _ Hrd).
  cbn [negb String.eqb]. split.
  - destruct push; [reflexivity|].
    rewrite !append_assoc. reflexivity.
  - now rewrite append_assoc.
Qed.

Lemma X5_subdirectory_merges_witness :
  githubProject {| Repo := "org/repo"; Branch := "main"; DeployOnPush := false |} "src" =
    githubProject {| Repo := "org/repo/src"; Branch := "main"; DeployOnPush := false |} "" /\
  localProject {| Path := "org/repo" |} "src" = localProject {| Path := "org/repo/src" |} "".
Proof.
  apply (X5_subdirectory_merges "org/repo" "src" "main" false); discriminate.
Defined.

End BuilderWhole.

(** ** The invoker and the orchestrator on every input *)

Section OrchestratorWhole.

Import Builder Invoker Orchestrator.

Variable os : OS.

(** The references of components that all translate are not empty. *)
Lemma references_nonempty (projects : list AppServerlessSpec) :
  forallb Design.translates projects = true ->
  forall a, In a (Design.references projects) -> a <> "".
Proof.
  induction projects as [|p rest IH]; simpl; intros Hall a Hin.
  - destruct Hin.
  - apply andb_true_iff in Hall as [Hp Hrest].
    destruct Hin as [<-|Hin]; [|now apply IH].
    unfold Design.translates in Hp.
    destruct (convertToNimProject p) as [ref [e|]] eqn:Hconv; cbn [fst snd] in *.
    + discriminate Hp.
    + now apply (convert_success_nonempty p).
Qed.

(** The three ways in which [deployServerless] ends. *)
Lemma deployServerless_cases (projects : list AppServerlessSpec) (st : State) :
  (forallb Design.translates projects = false /\
   exists e, deployServerless os projects st = (("", Some e), st)) \/
  (forallb Design.translates projects = true /\
   exists nim e, getNimPath os = (nim, Some e) /\
     deployServerless os projects st = (("", Some e), st)) \/
  (forallb Design.translates projects = true /\
   exists nim, getNimPath os = (nim, None) /\
     deployServerless os projects st =
       (exec_CombinedOutput os (launched st) nim
          (["project"; "deploy"; "--exclude"; "web"] ++ Design.references projects)%list,
        record_launch nim
          (["project"; "deploy"; "--exclude"; "web"] ++ Design.references projects)%list st)).
Proof.
  destruct (forallb Design.translates projects) eqn:Hall.
  - right. unfold deployServerless.
    rewrite (collectProjects_all projects [] Hall). cbn [app].
    destruct (getNimPath os) as [nim [e|]] eqn:Hpath.
    + left. split; [reflexivity|]. exists nim, e. split; [reflexivity|].
      now apply (runNim_unresolved os nim).
    + right. split; [reflexivity|]. exists nim. split; [reflexivity|].
      now apply runNim_resolved.
  - left. split; [reflexivity|].
    destruct (first_failure_exists _ Hall) as (before & p & after & e & -> & Hb & Hp).
    exists e. unfold deployServerless.
    now rewrite (collectProjects_first_failure before p after e [] Hb Hp).
Qed.

(** X6. Whatever the components and the machine, [deployServerless] never
    changes a static site, and it launches at most one program; it launches
    one only when every component translates and the path of the tool is
    resolved, and that program is the tool with the deploy arguments. *)
Theorem X6_deploy_effects (projects : list AppServerlessSpec) (st : State) :
  (forall l, sites_at (snd (deployServerless os projects st)) l = sites_at st l) /\
  (launched (snd (deployServerless os projects st)) = launched st \/
   exists nim,
     getNimPath os = (nim, None) /\
     forallb Design.translates projects = true /\
     launched (snd (deployServerless os projects st)) =
       (launched st ++
          [{| cmd_path := nim;
              cmd_args := ["project"; "deploy"; "--exclude"; "web"]
                            ++ Design.references projects |}])%list).
Proof.
  destruct (deployServerless_cases projects st)
    as [[_ (e & ->)] | [[_ (nim & e & _ & ->)] | [Hall (nim & Hpath & ->)]]];
    cbn [snd record_launch sites_at launched].
  - split; [reflexivity | now left].
  - split; [reflexivity | now left].
  - split; [reflexivity|]. right. now exists nim.
Qed.

(** X7. No argument that [deployServerless] passes to the tool is the empty
    string: every program in the list of launches after the call was there
    before or has only non-empty arguments. *)
Theorem X7_deploy_args_nonempty
  (projects : list AppServerlessSpec) (st : State) (inv : Invocation) :
  In inv (launched (snd (deployServerless os projects st))) ->
  In inv (launched st) \/ Measure.argsNonEmpty inv.
Proof.
  destruct (deployServerless_cases projects st)
    as [[_ (e & ->)] | [[_ (nim & e & _ & ->)] | [Hall (nim & Hpath & ->)]]];
    cbn [snd record_launch launched]; intro Hin; try (now left).
  apply in_app_or in Hin as [Hold|[<-|[]]]; [now left|].
  right. unfold Measure.argsNonEmpty. cbn [cmd_args]. intros a Ha.
  apply in_app_or in Ha as [Hpre|Href].
  - cbn in Hpre. intuition (subst; discriminate).
  - now apply (references_nonempty projects Hall).
Qed.

(** X8. With no component at all the orchestrator still launches the tool,
    with the four fixed arguments and nothing after them, and returns what
    the tool returns. *)
Theorem X8_deploy_nothing (nim : string) (st : State) :
  getNimPath os = (nim, None) ->
  deployServerless os [] st =
    (exec_CombinedOutput os (launched st) nim ["project"; "deploy"; "--exclude"; "web"],
     record_launch nim ["project"; "deploy"; "--exclude"; "web"] st).
Proof.
  intro Hpath. unfold deployServerless. cbn [collectProjects app].
  now apply runNim_resolved.
Qed.

(** X9. [runNim] in terms of the library calls.  When the home directory is
    not found it launches nothing and returns the empty text with that
    error, whatever string came with the error.  Otherwise it launches
    [<home>/.nimbella/cli/bin/nim] (joined by [filepath.Join]) once, with
    the arguments as given, and returns the text and the error of that
    program together, the text also when the program failed. *)
Theorem X9_runNim_contract (args : list string) (st : State) (home : string) :
  (forall e, os_UserHomeDir os = (home, Some e) ->
     runNim os args st = (("", Some e), st)) /\
  (os_UserHomeDir os = (home, None) ->
     runNim os args st =
       (exec_CombinedOutput os (launched st)
          (filepath_Join os [home; ".nimbella"; "cli"; "bin"; "nim"]) args,
        {| launched :=
             (launched st ++
                [{| cmd_path := filepath_Join os [home; ".nimbella"; "cli"; "bin"; "nim"];
                    cmd_args := args |}])%list;
           sites_at := sites_at st |})).
Proof.
  split.
  - intros e Hhome. apply (runNim_unresolved os "").
    unfold getNimPath. now rewrite Hhome.
  - intro Hhome. apply runNim_resolved.
    unfold getNimPath. now rewrite Hhome.
Qed.

End OrchestratorWhole.

(** ** The injector on every input *)

Section InjectorWhole.

Import Invoker Injector.

(** What the loop does to one location, whatever the list: nothing, or the
    one append, and the append only where the key was missing. *)
Lemma updateSites_any (url : string) (sites : list loc) (l : loc) :
  forall st,
    sites_at (snd (updateSites url sites st)) l = sites_at st l \/
    (hasServerlessURL (Envs (sites_at st l)) = false /\
     In l sites /\
     sites_at (snd (updateSites url sites st)) l = Design.appended url (sites_at st l)).
Proof.
  induction sites as [|s rest IH]; intro st.
  - now left.
  - rewrite updateSites_cons.
    destruct (hasServerlessURL (Envs (sites_at st s))) eqn:Hs; cbn [snd].
    + left. destruct (Nat.eq_dec l s) as [->|Hne].
      * rewrite store_Envs_same. apply site_eta.
      * now apply store_Envs_other.
    + set (st1 := snd (store_Envs s (Envs (sites_at st s) ++ [newEnv url]) st)).
      destruct (Nat.eq_dec l s) as [->|Hne].
      * assert (Hst1 : sites_at st1 s = Design.appended url (sites_at st s))
          by (unfold st1; now rewrite store_Envs_same).
        right. split; [exact Hs|]. split; [now left|].
        destruct (IH st1) as [Hsame|(Hno & _ & _)].
        -- now rewrite Hsame.
        -- rewrite Hst1 in Hno. cbn [Design.appended Envs] in Hno.
           rewrite hasServerlessURL_appended in Hno. discriminate Hno.
      * assert (Hst1 : sites_at st1 l = sites_at st l)
          by (unfold st1; now apply store_Envs_other).
        destruct (IH st1) as [Hsame|(Hno & Hin & Hfinal)].
        -- left. now rewrite Hsame.
        -- right. rewrite Hst1 in Hno, Hfinal. split; [exact Hno|].
           split; [now right | exact Hfinal].
Qed.


Lemma countKey_zero (envs : list AppVariableDefinition) :
  hasServerlessURL envs = false <-> Measure.countKey envs = 0.
Proof.
  induction envs as [|env rest IH]; simpl.
  - tauto.
  - destruct (Key env =? "SERVERLESS_URL"); [split; discriminate | exact IH].
Qed.

Lemma countKey_appended (url : string) (envs : list AppVariableDefinition) :
  Measure.countKey (envs ++ [newEnv url]) = S (Measure.countKey envs).
Proof.
  induction envs as [|env rest IH]; simpl.
  - reflexivity.
  - destruct (Key env =? "SERVERLESS_URL"); now rewrite IH.
Qed.

Variable os : OS.

(** [runNim] leaves the static sites alone. *)
Lemma runNim_sites (args : list string) (st : State) (l : loc) :
  sites_at (snd (runNim os args st)) l = sites_at st l.
Proof.
  destruct (getNimPath os) as [nim [e|]] eqn:Hpath.
  - now rewrite (runNim_unresolved os nim e args st Hpath).
  - now rewrite (runNim_resolved os nim args st Hpath).
Qed.

Lemma getServerlessURL_sites (st : State) (l : loc) :
  sites_at (snd (getServerlessURL os st)) l = sites_at st l.
Proof. unfold getServerlessURL. apply runNim_sites. Qed.

(** The injector when the query fails. *)
Lemma injector_query_failed (sites : list loc) (st : State) (out : string) (e : error) :
  fst (getServerlessURL os st) = (out, Some e) ->
  addServerlessURLToStaticSites os sites st = (Some e, snd (getServerlessURL os st)).
Proof.
  unfold addServerlessURLToStaticSites, bind.
  destruct (getServerlessURL os st) as [[url err] st1]. cbn [fst snd].
  intro H. inversion H; subst. reflexivity.
Qed.

(** The two ways in which the injector runs. *)
Lemma injector_cases (sites : list loc) (st : State) :
  (exists out e,
     fst (getServerlessURL os st) = (out, Some e) /\
     addServerlessURLToStaticSites os sites st = (Some e, snd (getServerlessURL os st))) \/
  (exists nim url,
     getNimPath os = (nim, None) /\
     exec_CombinedOutput os (launched st) nim ["auth"; "current"; "--web"] = (url, None) /\
     addServerlessURLToStaticSites os sites st =
       updateSites url sites (record_launch nim ["auth"; "current"; "--web"] st)).
Proof.
  destruct (fst (getServerlessURL os st)) as [out [e|]] eqn:Hq.
  - left. exists out, e. split; [reflexivity|]. now apply (injector_query_failed sites st out).
  - right. unfold getServerlessURL in Hq.
    destruct (getNimPath os) as [nim [e|]] eqn:Hpath.
    + rewrite (runNim_unresolved os nim e _ st Hpath) in Hq. discriminate Hq.
    + rewrite (runNim_resolved os nim _ st Hpath) in Hq. cbn [fst] in Hq.
      exists nim, out. split; [reflexivity|]. split; [exact Hq|].
      now apply injector_fetched.
Qed.

(** X10. When the endpoint query fails, because the path of the tool is not
    resolved or because the tool returns an error, the injector returns that
    error and no static site is changed, whatever the batch holds: the
    failure of the query comes before any conflict. *)
Theorem X10_query_failure
  (sites : list loc) (st : State) (out : string) (e : error) :
  fst (getServerlessURL os st) = (out, Some e) ->
  fst (addServerlessURLToStaticSites os sites st) = Some e /\
  forall l, sites_at (snd (addServerlessURLToStaticSites os sites st)) l = sites_at st l.
Proof.
  intro Hq. rewrite (injector_query_failed sites st out e Hq). cbn [fst snd].
  split; [reflexivity|]. intro l. apply getServerlessURL_sites.
Qed.

(** X11. With an empty batch the injector still queries the tool: its
    result and its effect are those of the query alone, so an error of the
    tool is reported although there was no site to change. *)
Theorem X11_inject_nothing (st : State) :
  addServerlessURLToStaticSites os [] st =
    (snd (fst (getServerlessURL os st)), snd (getServerlessURL os st)).
Proof.
  unfold addServerlessURLToStaticSites, bind.
  destruct (getServerlessURL os st) as [[url [e|]] st1]; reflexivity.
Qed.

(** X12. For sites that each hold their own collection (no two [Envs]
    slices share a backing array), whatever the batch and the outcome, the
    injector only ever appends: at every location the name is as before and
    the variables are the former ones, or the former ones followed by the
    single new variable; the latter only for a site of the batch that did
    not have the key. *)
Theorem X12_append_only (sites : list loc) (st : State) (l : loc) :
  Name (sites_at (snd (addServerlessURLToStaticSites os sites st)) l) =
    Name (sites_at st l) /\
  (Envs (sites_at (snd (addServerlessURLToStaticSites os sites st)) l) =
     Envs (sites_at st l) \/
   exists url,
     In l sites /\
     ~ Design.usesKey (Envs (sites_at st l)) /\
     Envs (sites_at (snd (addServerlessURLToStaticSites os sites st)) l) =
       (Envs (sites_at st l) ++
          [{| Key := "SERVERLESS_URL"; Value := url;
              Scope := AppVariableScope_BuildTime;
              Type_ := AppVariableType_General |}])%list).
Proof.
  destruct (injector_cases sites st)
    as [(out & e & _ & ->) | (nim & url & _ & _ & ->)].
  - cbn [snd]. rewrite getServerlessURL_sites. split; [reflexivity | now left].
  - destruct (updateSites_any url sites l (record_launch nim ["auth"; "current"; "--web"] st))
      as [-> | (Hno & Hin & ->)]; cbn [record_launch sites_at] in *.
    + split; [reflexivity | now left].
    + split; [reflexivity|]. right. exists url. split; [exact Hin|].
      split; [|reflexivity].
      intro Huses. apply hasServerlessURL_true in Huses. congruence.
Qed.

(** X13. For sites that each hold their own collection (no two [Envs]
    slices share a backing array), the injector never gives a site a second
    [SERVERLESS_URL]: at every location the number of entries with that key
    is what it was, or it was zero and is now one. *)
Theorem X13_key_not_duplicated (sites : list loc) (st : State) (l : loc) :
  Measure.countKey (Envs (sites_at (snd (addServerlessURLToStaticSites os sites st)) l)) =
    Measure.countKey (Envs (sites_at st l)) \/
  (Measure.countKey (Envs (sites_at st l)) = 0 /\
   Measure.countKey (Envs (sites_at (snd (addServerlessURLToStaticSites os sites st)) l)) = 1).
Proof.
  destruct (injector_cases sites st)
    as [(out & e & _ & ->) | (nim & url & _ & _ & ->)].
  - cbn [snd]. rewrite getServerlessURL_sites. now left.
  - destruct (updateSites_any url sites l (record_launch nim ["auth"; "current"; "--web"] st))
      as [-> | (Hno & _ & ->)]; cbn [record_launch sites_at] in *.
    + now left.
    + right. apply countKey_zero in Hno. split; [exact Hno|].
      cbn [Design.appended Envs]. now rewrite countKey_appended, Hno.
Qed.


(** X15. The injector cannot be run twice on the same sites: after a call
    that succeeded on a batch that is not empty, a second call on that batch
    fails with the conflict as soon as its query has answered, and it
    changes no site. *)
Theorem X15_second_run_conflicts
  (nim url2 : string) (sites : list loc) (st st1 : State) :
  sites <> [] ->
  addServerlessURLToStaticSites os sites st = (None, st1) ->
  getNimPath os = (nim, None) ->
  exec_CombinedOutput os (launched st1) nim ["auth"; "current"; "--web"] = (url2, None) ->
  fst (addServerlessURLToStaticSites os sites st1) = Some (errors_New msgConflictingUse) /\
  forall l, sites_at (snd (addServerlessURLToStaticSites os sites st1)) l = sites_at st1 l.
Proof.
  intros Hne Hrun Hpath Hout2.
  assert (Hok : fst (addServerlessURLToStaticSites os sites st) = None)
    by now rewrite Hrun.
  destruct (injector_success os sites st Hok) as (nim1 & url & _ & _ & Hloop).
  rewrite Hloop in Hrun, Hok.
  destruct (updateSites_success url sites _ Hok) as [_ Hsites].
  destruct sites as [|s rest]; [congruence|].
  destruct (Hsites s (or_introl eq_refl)) as [_ Hfinal].
  rewrite Hrun in Hfinal. cbn [snd] in Hfinal.
  rewrite (injector_fetched os nim url2 _ st1 Hpath Hout2), updateSites_cons.
  set (st2 := record_launch nim ["auth"; "current"; "--web"] st1).
  assert (Hst2 : forall l, sites_at st2 l = sites_at st1 l) by reflexivity.
  rewrite (Hst2 s), Hfinal. cbn [Design.appended Envs].
  rewrite hasServerlessURL_appended. cbn [fst snd].
  split; [reflexivity|]. intro l. rewrite <- (Hst2 l).
  destruct (Nat.eq_dec l s) as [->|Hl].
  - rewrite store_Envs_same, (Hst2 s), Hfinal. reflexivity.
  - now apply store_Envs_other.
Qed.

(** X16. The injector queries the tool once in every call in which the path
    of the tool is resolved, whatever the batch and whatever the outcome,
    and it launches nothing else; when the path is not resolved it launches
    nothing. *)
Theorem X16_one_query (sites : list loc) (st : State) :
  (forall nim, getNimPath os = (nim, None) ->
     launched (snd (addServerlessURLToStaticSites os sites st)) =
       (launched st ++
          [{| cmd_path := nim; cmd_args := ["auth"; "current"; "--web"] |}])%list) /\
  (forall nim e, getNimPath os = (nim, Some e) ->
     addServerlessURLToStaticSites os sites st = (Some e, st)).
Proof.
  split.
  - intros nim Hpath.
    destruct (injector_cases sites st)
      as [(out & e & _ & ->) | (nim' & url & Hpath' & _ & ->)].
    + cbn [snd]. unfold getServerlessURL.
      now rewrite (runNim_resolved os nim _ st Hpath).
    + rewrite updateSites_launched. rewrite Hpath in Hpath'.
      inversion Hpath'; subst. reflexivity.
  - intros nim e Hpath.
    assert (Hq : getServerlessURL os st = (("", Some e), st))
      by (unfold getServerlessURL; now apply (runNim_unresolved os nim)).
    rewrite (injector_query_failed sites st "" e); now rewrite Hq.
Qed.

End InjectorWhole.

(** ** A site with the key, in every outcome of the query *)

Section InjectorOutcomes.

Import Invoker Injector.

Variable os : OS.

(** A query that answered without error went through a resolved path. *)
Lemma getServerlessURL_answered (url : string) (st : State) :
  fst (getServerlessURL os st) = (url, None) ->
  exists nim,
    getNimPath os = (nim, None) /\
    exec_CombinedOutput os (launched st) nim ["auth"; "current"; "--web"] = (url, None).
Proof.
  unfold getServerlessURL. intro Hq.
  destruct (getNimPath os) as [nim [e|]] eqn:Hpath.
  - rewrite (runNim_unresolved os nim e _ st Hpath) in Hq. discriminate Hq.
  - rewrite (runNim_resolved os nim _ st Hpath) in Hq. cbn [fst] in Hq.
    exists nim. now split.
Qed.

(** C8, amended. Take a batch, a site of it whose variables already have
    an entry with the key [SERVERLESS_URL], and a call of the injector on
    that batch (the sites holding their own collections, as in the data
    model).  When the endpoint query answers, the call fails with the
    conflicting-variable error; when the query fails, the call fails with
    the error of the query.  In both cases the site is after the call what
    it was before: no entry added, removed or moved. *)
Theorem C8_injector_conflict (sites : list loc) (site : loc) (st : State) :
  In site sites ->
  Design.usesKey (Envs (sites_at st site)) ->
  (forall url, fst (getServerlessURL os st) = (url, None) ->
     fst (addServerlessURLToStaticSites os sites st) =
       Some (errors_New msgConflictingUse)) /\
  (forall out e, fst (getServerlessURL os st) = (out, Some e) ->
     fst (addServerlessURLToStaticSites os sites st) = Some e) /\
  sites_at (snd (addServerlessURLToStaticSites os sites st)) site = sites_at st site /\
  kindOf (errors_New msgConflictingUse) = ConflictingVariable.
Proof.
  intros Hin Huses.
  split; [|split; [|split; [|reflexivity]]].
  - intros url Hq.
    destruct (getServerlessURL_answered url st Hq) as (nim & Hpath & Hout).
    now destruct (injector_conflict_in_batch os nim url sites site st Hpath Hout Hin Huses).
  - intros out e Hq. now rewrite (injector_query_failed os sites st out e Hq).
  - destruct (fst (getServerlessURL os st)) as [out [e|]] eqn:Hq.
    + rewrite (injector_query_failed os sites st out e Hq). cbn [snd].
      apply getServerlessURL_sites.
    + destruct (getServerlessURL_answered out st Hq) as (nim & Hpath & Hout).
      now destruct (injector_conflict_in_batch os nim out sites site st Hpath Hout Hin Huses).
Qed.

(** C10, amended. Take a batch of distinct sites, each holding its own
    collection as in the data model, of which [site] is the first that
    already has an entry with the key.  When the endpoint query answers
    [url], the call returns the conflict error, every site before [site]
    keeps the variable that was appended to it, and [site] and every site
    after it are unchanged: the appends already made are not rolled back.
    When the query fails, the call returns the error of the query and no
    site is changed. *)
Theorem C10_partial_commit
  (before : list loc) (site : loc) (after : list loc) (st : State) :
  NoDup (before ++ site :: after) ->
  (forall b, In b before -> ~ Design.usesKey (Envs (sites_at st b))) ->
  Design.usesKey (Envs (sites_at st site)) ->
  (forall url, fst (getServerlessURL os st) = (url, None) ->
     fst (addServerlessURLToStaticSites os (before ++ site :: after) st) =
       Some (errors_New msgConflictingUse) /\
     (forall b, In b before ->
        sites_at (snd (addServerlessURLToStaticSites os (before ++ site :: after) st)) b =
          {| Name := Name (sites_at st b);
             Envs := Envs (sites_at st b) ++
                       [{| Key := "SERVERLESS_URL"; Value := url;
                           Scope := AppVariableScope_BuildTime;
                           Type_ := AppVariableType_General |}] |}) /\
     (forall c, In c (site :: after) ->
        sites_at (snd (addServerlessURLToStaticSites os (before ++ site :: after) st)) c =
          sites_at st c)) /\
  (forall out e, fst (getServerlessURL os st) = (out, Some e) ->
     fst (addServerlessURLToStaticSites os (before ++ site :: after) st) = Some e /\
     forall l,
       sites_at (snd (addServerlessURLToStaticSites os (before ++ site :: after) st)) l =
         sites_at st l).
Proof.
  intros Hnodup Hclean Huses. split.
  - intros url Hq.
    destruct (getServerlessURL_answered url st Hq) as (nim & Hpath & Hout).
    exact (injector_partial_commit os nim url before site after st
             Hpath Hout Hnodup Hclean Huses).
  - intros out e Hq. rewrite (injector_query_failed os _ st out e Hq). cbn [fst snd].
    split; [reflexivity|]. intro l. apply getServerlessURL_sites.
Qed.

End InjectorOutcomes.

(** ** Retrieval of a domain record *)

Section RetrieveFacts.

Import Domainrecs.

Variables DomainRecord Response : Type.
Variable client : Client DomainRecord Response.

(** X17. [Retrieve] passes the error of the client through and never
    returns a record together with an error: when the client reports an
    error the record is [nil], also if the client handed one back, and
    otherwise the record is the client's; the response of the client is
    dropped. *)
Theorem X17_retrieve_record_or_error (domain : string) (id : Z) :
  snd (Retrieve client domain id) = snd (Domains_Record client domain id) /\
  (snd (Retrieve client domain id) <> None -> fst (Retrieve client domain id) = None) /\
  (snd (Retrieve client domain id) = None ->
     fst (Retrieve client domain id) = fst (fst (Domains_Record client domain id))).
Proof.
  unfold Retrieve.
  destruct (Domains_Record client domain id) as [[r resp] [e|]]; cbn [fst snd].
  - repeat split. discriminate.
  - repeat split. congruence.
Qed.

End RetrieveFacts.

(** ** The further properties on concrete machines *)

Section ConcreteWhole.

Import Examples Measure.

Example retrieve_known :
  Domainrecs.Retrieve client_one "example.com" 7 = (Some "A 203.0.113.5", None).
Proof. reflexivity. Qed.

Example retrieve_unknown_drops_record :
  Domainrecs.Retrieve client_one "example.org" 7 = (None, Some (foreign "404 not found")).
Proof. reflexivity. Qed.

Example deploy_tool_error_keeps_text :
  fst (Orchestrator.deployServerless os_toolfails [gh_full] st0) =
    ("Error: not logged in", Some (foreign "exit status 1")).
Proof. reflexivity. Qed.

Lemma X7_deploy_args_nonempty_witness :
  In {| cmd_path := "/home/dev/.nimbella/cli/bin/nim";
        cmd_args := ["project"; "deploy"; "--exclude"; "web";
                     "github:org/repo/src#main"] |}
     (launched (snd (Orchestrator.deployServerless os_home [gh_full] st0))) /\
  (In {| cmd_path := "/home/dev/.nimbella/cli/bin/nim";
         cmd_args := ["project"; "deploy"; "--exclude"; "web";
                      "github:org/repo/src#main"] |}
      (launched st0) \/
   argsNonEmpty
     {| cmd_path := "/home/dev/.nimbella/cli/bin/nim";
        cmd_args := ["project"; "deploy"; "--exclude"; "web";
                     "github:org/repo/src#main"] |}).
Proof.
  split; [now left|].
  exact (X7_deploy_args_nonempty os_home [gh_full] st0 _ (or_introl eq_refl)).
Defined.

Lemma X8_deploy_nothing_witness :
  Orchestrator.deployServerless os_home [] st0 =
    (("https://ns.example.com" ++ newline, None),
     record_launch "/home/dev/.nimbella/cli/bin/nim"
       ["project"; "deploy"; "--exclude"; "web"] st0).
Proof.
  exact (X8_deploy_nothing os_home "/home/dev/.nimbella/cli/bin/nim" st0 eq_refl).
Defined.

(** The tool fails and the only site of the batch has the key: the error is
    the tool's. *)
Lemma X10_query_failure_witness :
  Injector.hasServerlessURL (Envs (sites_at st0 1)) = true /\
  fst (Injector.addServerlessURLToStaticSites os_toolfails [1] st0) =
    Some (foreign "exit status 1") /\
  forall l,
    sites_at (snd (Injector.addServerlessURLToStaticSites os_toolfails [1] st0)) l =
      sites_at st0 l.
Proof.
  split; [reflexivity|].
  exact (X10_query_failure os_toolfails [1] st0 "Error: not logged in"
           (foreign "exit status 1") eq_refl).
Defined.


Example same_site_twice_conflicts :
  fst (Injector.addServerlessURLToStaticSites os_home [0; 0] st0) =
    Some (errors_New msgConflictingUse).
Proof. reflexivity. Qed.

Lemma X15_second_run_conflicts_witness :
  fst (Injector.addServerlessURLToStaticSites os_home [0; 2]
         (snd (Injector.addServerlessURLToStaticSites os_home [0; 2] st0))) =
    Some (errors_New msgConflictingUse) /\
  forall l,
    sites_at (snd (Injector.addServerlessURLToStaticSites os_home [0; 2]
                     (snd (Injector.addServerlessURLToStaticSites os_home [0; 2] st0)))) l =
      sites_at (snd (Injector.addServerlessURLToStaticSites os_home [0; 2] st0)) l.
Proof.
  apply (X15_second_run_conflicts os_home "/home/dev/.nimbella/cli/bin/nim"
           ("https://ns.example.com" ++ newline) [0; 2] st0).
  - discriminate.
  - reflexivity.
  - reflexivity.
  - reflexivity.
Defined.

(** C8 as stated fails where the tool answers the query with an error: the
    only site of the batch has the key, and the error of the call is the
    tool's, not the conflict. *)
Lemma C8_counterexample :
  In 1 [1] /\
  Design.usesKey (Envs (sites_at st0 1)) /\
  fst (Injector.addServerlessURLToStaticSites os_toolfails [1] st0) =
    Some (foreign "exit status 1") /\
  foreign "exit status 1" <> errors_New msgConflictingUse /\
  kindOf (foreign "exit status 1") <> ConflictingVariable.
Proof.
  split; [now left|]. split; [exact usesKey_site1|]. split; [reflexivity|].
  split; discriminate.
Qed.

Lemma C8_injector_conflict_witness :
  (forall url, fst (Injector.getServerlessURL os_home st0) = (url, None) ->
     fst (Injector.addServerlessURLToStaticSites os_home [0; 1] st0) =
       Some (errors_New msgConflictingUse)) /\
  (forall out e, fst (Injector.getServerlessURL os_home st0) = (out, Some e) ->
     fst (Injector.addServerlessURLToStaticSites os_home [0; 1] st0) = Some e) /\
  sites_at (snd (Injector.addServerlessURLToStaticSites os_home [0; 1] st0)) 1 =
    sites_at st0 1 /\
  kindOf (errors_New msgConflictingUse) = ConflictingVariable.
Proof.
  exact (C8_injector_conflict os_home [0; 1] 1 st0
           (or_intror (or_introl eq_refl)) usesKey_site1).
Defined.

Example conflict_after_query :
  fst (Injector.addServerlessURLToStaticSites os_home [0; 1] st0) =
    Some (errors_New msgConflictingUse).
Proof. reflexivity. Qed.

(** C10 as stated fails where the home directory is unknown: the second
    site of the batch is the first that has the key, and yet the call
    returns the error of the resolver, not the conflict, and the first site
    has no new variable. *)
Lemma C10_counterexample :
  NoDup [0; 1] /\
  Injector.hasServerlessURL (Envs (sites_at st0 0)) = false /\
  Injector.hasServerlessURL (Envs (sites_at st0 1)) = true /\
  fst (Injector.addServerlessURLToStaticSites os_nohome [0; 1] st0) =
    Some (foreign "$HOME is not defined") /\
  foreign "$HOME is not defined" <> errors_New msgConflictingUse /\
  map Key (Envs (sites_at (snd (Injector.addServerlessURLToStaticSites os_nohome [0; 1] st0)) 0)) =
    ["API_KEY"] /\
  map Key (Envs (sites_at st0 0)) = ["API_KEY"].
Proof.
  split; [repeat constructor; simpl; intuition discriminate|].
  repeat split. discriminate.
Qed.

Lemma clean_sites_0_2 :
  forall b, In b [0; 2] -> ~ Design.usesKey (Envs (sites_at st0 b)).
Proof.
  intros b [<-|[<-|[]]] (env & Hin & Hkey); simpl in Hin;
    intuition (subst; discriminate).
Defined.

Lemma nodup_0_2_1_3 : NoDup ([0; 2] ++ 1 :: [3]).
Proof. repeat constructor; simpl; intuition discriminate. Defined.

Lemma C10_partial_commit_witness :
  fst (Injector.addServerlessURLToStaticSites os_home ([0; 2] ++ 1 :: [3]) st0) =
    Some (errors_New msgConflictingUse) /\
  (forall b, In b [0; 2] ->
     sites_at (snd (Injector.addServerlessURLToStaticSites os_home ([0; 2] ++ 1 :: [3]) st0)) b =
       {| Name := Name (sites_at st0 b);
          Envs := Envs (sites_at st0 b) ++
                    [{| Key := "SERVERLESS_URL"; Value := "https://ns.example.com" ++ newline;
                        Scope := AppVariableScope_BuildTime;
                        Type_ := AppVariableType_General |}] |}) /\
  (forall c, In c (1 :: [3]) ->
     sites_at (snd (Injector.addServerlessURLToStaticSites os_home ([0; 2] ++ 1 :: [3]) st0)) c =
       sites_at st0 c).
Proof.
  exact (proj1 (C10_partial_commit os_home [0; 2] 1 [3] st0
                  nodup_0_2_1_3 clean_sites_0_2 usesKey_site1)
           ("https://ns.example.com" ++ newline) eq_refl).
Defined.

End ConcreteWhole.
